(** * Verification of [jules-scratch/verification/verify_delete_button.py]

    The script drives a headless browser through the third-party Playwright
    library: it adds a hotspot, selects it, deletes it, asserts that no hotspot
    marker is left, takes a screenshot and closes the browser.

    The library is an external collaborator.  It is modelled as a black box
    [Library World]: a deterministic transition function on an arbitrary
    state space [World] that answers every call of the script either with a
    return value or with a raised exception.  The script itself is embedded
    in a state-and-exception monad over the state of the Python process. *)

From stdpp Require Import base option list strings gmap.
From Stdlib Require Import ZArith Lia.

(** ** The interface of the automation library *)

Module SyncApi.

(** Objects handed out by the library; the script only passes them back. *)
Inductive Playwright := PlaywrightObj (id : nat).
Inductive Browser := BrowserObj (id : nat).
Inductive BrowserContext := BrowserContextObj (id : nat).
Inductive Page := PageObj (id : nat).

(** [page.locator(selector, has_text=...)]: a query, built without talking
    to the browser and resolved again by every operation applied to it.
    Building it, like wrapping it in [expect(...)], is not a call into the
    browser; the operations [click] and [to_have_count] are. *)
Record Locator := {
  loc_page : Page;
  loc_selector : string;
  loc_has_text : option string
}.

(** Exceptions the library raises: [playwright.sync_api.TimeoutError],
    [playwright.sync_api.Error], the [AssertionError] of [expect], and
    [OSError] from writing a file. *)
Inductive exn :=
| TimeoutError (msg : string)
| Error (msg : string)
| AssertionError (msg : string)
| OSError (msg : string).

(** The library calls the script issues, with the arguments it passes.
    A keyword argument the script may leave out is an [option]. *)
Inductive call :=
| SyncPlaywrightEnter
| ChromiumLaunch (pw : Playwright) (headless : bool)
| NewContext (b : Browser)
| NewPage (c : BrowserContext)
| Goto (p : Page) (url : string)
| Click (l : Locator)
| ExpectToHaveCount (l : Locator) (count : Z)
| Screenshot (p : Page) (path : string) (full_page : option bool)
| BrowserClose (b : Browser)
| SyncPlaywrightExit (pw : Playwright).

(** The Python type of what each call returns. *)
Definition ret (c : call) : Type :=
  match c with
  | SyncPlaywrightEnter => Playwright
  | ChromiumLaunch _ _ => Browser
  | NewContext _ => BrowserContext
  | NewPage _ => Page
  | _ => unit
  end.

Inductive outcome (A : Type) :=
| Returned (a : A)
| Raised (e : exn).
Arguments Returned {A} a.
Arguments Raised {A} e.

Definition raised {A} (r : outcome A) : option exn :=
  match r with Returned _ => None | Raised e => Some e end.

Definition outcome_map {A B} (f : A → B) (r : outcome A) : outcome B :=
  match r with Returned a => Returned (f a) | Raised e => Raised e end.

(** Python values the library returns, untyped, as a log shows them. *)
Inductive value :=
| VNone
| VPlaywright (pw : Playwright)
| VBrowser (b : Browser)
| VContext (c : BrowserContext)
| VPage (p : Page).

Definition to_value (c : call) : ret c → value :=
  match c with
  | SyncPlaywrightEnter => VPlaywright
  | ChromiumLaunch _ _ => VBrowser
  | NewContext _ => VContext
  | NewPage _ => VPage
  | Goto _ _ => λ _, VNone
  | Click _ => λ _, VNone
  | ExpectToHaveCount _ _ => λ _, VNone
  | Screenshot _ _ _ => λ _, VNone
  | BrowserClose _ => λ _, VNone
  | SyncPlaywrightExit _ => λ _, VNone
  end.

(** The library together with the browser, the application under test and
    the file system: one transition per call.  The library runs inside the
    Python process, so besides its own state it sees the command line and
    the environment variables of the process. *)
Definition Library (World : Type) : Type :=
  list string → gmap string string → World →
  ∀ c : call, World * outcome (ret c).

(** A library that acts on neither the command line nor the environment. *)
Definition ignores_process {World} (lib : Library World) : Prop :=
  ∀ args1 env1 args2 env2 w c, lib args1 env1 w c = lib args2 env2 w c.

(** Reading a logged value back at the type a call returns. *)
Definition from_value (c : call) : value → option (ret c) :=
  match c with
  | SyncPlaywrightEnter => λ v, if v is VPlaywright pw then Some pw else None
  | ChromiumLaunch _ _ => λ v, if v is VBrowser b then Some b else None
  | NewContext _ => λ v, if v is VContext x then Some x else None
  | NewPage _ => λ v, if v is VPage p then Some p else None
  | Goto _ _ => λ v, if v is VNone then Some () else None
  | Click _ => λ v, if v is VNone then Some () else None
  | ExpectToHaveCount _ _ => λ v, if v is VNone then Some () else None
  | Screenshot _ _ _ => λ v, if v is VNone then Some () else None
  | BrowserClose _ => λ v, if v is VNone then Some () else None
  | SyncPlaywrightExit _ => λ v, if v is VNone then Some () else None
  end.

(** A library that plays back a given list of answers, one per call,
    whatever the call, the command line and the environment are. *)
Definition replay : Library (list (outcome value)) := λ _ _ answers c,
  match answers with
  | [] => ([], Raised (Error "no answer left"))
  | Raised x :: rest => (rest, Raised x)
  | Returned v :: rest =>
      (rest, match from_value c v with
             | Some a => Returned a
             | None => Raised (Error "answer of another type")
             end)
  end.

(** [Page.screenshot] documents [full_page] as: when true, a screenshot of
    the full scrollable page instead of the visible viewport; default
    false. *)
Definition full_page_default : bool := false.

Definition is_full_page_screenshot (c : call) : bool :=
  match c with
  | Screenshot _ _ fp => default full_page_default fp
  | _ => false
  end.

Definition is_screenshot (c : call) : bool :=
  match c with Screenshot _ _ _ => true | _ => false end.


(** The file a call asks the library to write, if any. *)
Definition written_path (c : call) : option string :=
  match c with Screenshot _ path _ => Some path | _ => None end.

End SyncApi.

Import SyncApi.

(** ** The Python process *)

Section Process.

Context {World : Type}.

(** One line of the call log: the state the library was in when the call
    arrived, the call, and how it ended.  The log is ghost state: the
    script cannot read it. *)
Record entry := Entry {
  e_pre : World;
  e_call : call;
  e_outcome : outcome value
}.

Definition e_raised (e : entry) : option exn := raised (e_outcome e).

(** What a running script could observe: the command line, the
    environment variables, and the world behind the library. *)
Record Process := {
  argv : list string;
  environ : gmap string string;
  world : World;
  log : list entry
}.

Definition M (A : Type) : Type := Process → Process * outcome A.

#[export] Instance M_ret : MRet M := λ A a s, (s, Returned a).

#[export] Instance M_bind : MBind M := λ A B f m s,
  match m s with
  | (s', Returned a) => f a s'
  | (s', Raised e) => (s', Raised e)
  end.

Variable lib : Library World.

(** A call into the library: the library, which sees the command line and
    the environment of the process, moves the world and answers, and the
    call is logged. *)
Definition invoke (c : call) : M (ret c) := λ s,
  let '(w', r) := lib (argv s) (environ s) (world s) c in
  ({| argv := argv s; environ := environ s; world := w';
      log := log s ++ [Entry (world s) c (outcome_map (to_value c) r)] |}, r).

(** [try: body finally: fin].  The [finally] suite runs on both exits; an
    exception raised inside it replaces the pending one. *)
Definition try_finally {A} (body : M A) (fin : M unit) : M A := λ s,
  match body s with
  | (s1, r) =>
    match fin s1 with
    | (s2, Returned _) => (s2, r)
    | (s2, Raised e') => (s2, Raised e')
    end
  end.

(** [with sync_playwright() as playwright: body].  [__exit__] of the
    library's context manager returns [None], so a pending exception is
    never swallowed. *)
Definition with_sync_playwright {A} (body : Playwright → M A) : M A :=
  playwright ← invoke SyncPlaywrightEnter;
  try_finally (body playwright) (invoke (SyncPlaywrightExit playwright)).

(** ** The script *)

Definition target_url : string := "http://localhost:3000/mobile-test".
Definition screenshot_path : string :=
  "jules-scratch/verification/verification.png".

Definition add_hotspot_button (page : Page) : Locator :=
  {| loc_page := page; loc_selector := "button";
     loc_has_text := Some "Add Hotspot" |}.
Definition hotspot_element (page : Page) : Locator :=
  {| loc_page := page; loc_selector := ".hotspot-element";
     loc_has_text := None |}.
Definition delete_button (page : Page) : Locator :=
  {| loc_page := page; loc_selector := "button[aria-label='Delete hotspot']";
     loc_has_text := None |}.

(** The suite of the [try] statement of [run]. *)
Definition scenario (page : Page) : M unit :=
  invoke (Goto page target_url);;
  invoke (Click (add_hotspot_button page));;
  invoke (Click (hotspot_element page));;
  invoke (Click (delete_button page));;
  invoke (ExpectToHaveCount (hotspot_element page) 0%Z);;
  invoke (Screenshot page screenshot_path None).

Definition run (playwright : Playwright) : M unit :=
  browser ← invoke (ChromiumLaunch playwright true);
  context ← invoke (NewContext browser);
  page ← invoke (NewPage context);
  try_finally (scenario page) (invoke (BrowserClose browser)).

(** The module body. *)
Definition main : M unit := with_sync_playwright run.

(** An exception nobody catches ends the interpreter with status 1. *)
Definition exit_status {A} (r : outcome A) : Z :=
  match r with Returned _ => 0%Z | Raised _ => 1%Z end.

Definition calls (s : Process) : list call := e_call <$> log s.

(** The exceptions raised during a run, oldest first. *)
Definition raised_in (l : list entry) : list exn := omap e_raised l.

(** Calls that release what the script holds. *)
Definition is_cleanup (c : call) : bool :=
  match c with
  | BrowserClose _ | SyncPlaywrightExit _ => true
  | _ => false
  end.

Definition start (args : list string) (env : gmap string string)
    (w : World) : Process :=
  {| argv := args; environ := env; world := w; log := [] |}.

End Process.

Arguments entry : clear implicits.
Arguments Process : clear implicits.
Arguments M : clear implicits.

(** ** What the script relies on from the library

    Each clause restates documented behaviour of the library in terms of
    [matches w l], the number of elements the locator [l] resolves to for as
    long as a call arriving in state [w] waits, and of [files w], the file
    system in state [w]. *)

Section Contract.

Context {World : Type} (lib : Library World).
Variable matches : World → Locator → nat.
Variable files : World → gmap string (list Byte.byte).
Variable running : World → Browser → bool.

(** A click waits for its target; with nothing to click it times out. *)
Definition click_times_out_without_match : Prop :=
  ∀ args env w l, matches w l = 0 →
    ∃ msg, (lib args env w (Click l)).2 = Raised (TimeoutError msg).

(** Locators are strict: an operation that needs one target element
    raises when the locator resolves to several. *)
Definition click_is_strict : Prop :=
  ∀ args env w l, (1 < matches w l) →
    ∃ msg, (lib args env w (Click l)).2 = Raised (Error msg).

(** [expect(l).to_have_count(n)] raises [AssertionError] unless the
    locator resolves to exactly [n] elements. *)
Definition expect_raises_on_mismatch : Prop :=
  ∀ args env w l n, Z.of_nat (matches w l) ≠ n →
    ∃ msg, (lib args env w (ExpectToHaveCount l n)).2
           = Raised (AssertionError msg).

(** The library writes a file only where a call names one, and a
    screenshot that returns has stored an image under its path. *)
Definition writes_only_named_files : Prop :=
  (∀ args env w c, written_path c = None →
     files (lib args env w c).1 = files w) ∧
  (∀ args env w p path fp,
     (lib args env w (Screenshot p path fp)).2 = Returned () →
     ∃ img, files (lib args env w (Screenshot p path fp)).1
            = <[path := img]> (files w)).


End Contract.

(** ** A stub application behind a stub library

    A page with one toolbar button that adds a hotspot marker, markers that
    can be selected, and a delete button shown while a marker is selected.
    Faults can be injected by call number. *)

Module Stub.

Record App := {
  button_label : string;       (* text of the toolbar button *)
  delete_works : bool;         (* false: the delete handler is broken *)
  faults : list nat;           (* numbers of the calls that raise *)
  seen : nat;                  (* calls answered so far *)
  loaded : bool;               (* the page has been navigated to *)
  hotspots : nat;              (* hotspot markers in the document *)
  selected : bool;             (* a marker is selected *)
  disk : gmap string (list Byte.byte)
}.

Definition has_text (text label : string) : bool :=
  bool_decide (is_Some (String.index 0 text label)).

Definition matches (w : App) (l : Locator) : nat :=
  if negb (loaded w) then 0
  else if String.eqb (loc_selector l) ".hotspot-element" then hotspots w
  else if String.eqb (loc_selector l) "button[aria-label='Delete hotspot']"
    then (if selected w then 1 else 0)
  else if String.eqb (loc_selector l) "button" then
    match loc_has_text l with
    | Some t => if has_text t (button_label w) then 1 else 0
    | None => (if selected w then 2 else 1)
    end
  else 0.

Definition tick (w : App) : App :=
  {| button_label := button_label w; delete_works := delete_works w;
     faults := faults w; seen := S (seen w); loaded := loaded w;
     hotspots := hotspots w; selected := selected w; disk := disk w |}.

Definition set_dom (w : App) (ld : bool) (n : nat) (sel : bool) : App :=
  {| button_label := button_label w; delete_works := delete_works w;
     faults := faults w; seen := seen w; loaded := ld;
     hotspots := n; selected := sel; disk := disk w |}.

Definition set_disk (w : App) (d : gmap string (list Byte.byte)) : App :=
  {| button_label := button_label w; delete_works := delete_works w;
     faults := faults w; seen := seen w; loaded := loaded w;
     hotspots := hotspots w; selected := selected w; disk := d |}.

(** What a click on a single resolved element does to the document. *)
Definition clicked (w : App) (l : Locator) : App :=
  if String.eqb (loc_selector l) ".hotspot-element"
    then set_dom w true (hotspots w) true
  else if String.eqb (loc_selector l) "button[aria-label='Delete hotspot']"
    then (if delete_works w
          then set_dom w true (pred (hotspots w)) false else w)
  else set_dom w true (S (hotspots w)) (selected w).

Definition png : list Byte.byte := [Byte.x89; Byte.x50; Byte.x4e; Byte.x47].

Definition faulty (w : App) : bool := bool_decide (seen w ∈ faults w).

Definition lib : Library App := λ _ _ w c,
  let w' := tick w in
  match c with
  | SyncPlaywrightEnter =>
      if faulty w then (w', Raised (Error "driver not found"))
      else (w', Returned (PlaywrightObj 0))
  | ChromiumLaunch _ _ =>
      if faulty w then (w', Raised (Error "executable does not exist"))
      else (w', Returned (BrowserObj 0))
  | NewContext _ =>
      if faulty w then (w', Raised (Error "browser has been closed"))
      else (w', Returned (BrowserContextObj 0))
  | NewPage _ =>
      if faulty w then (w', Raised (Error "context has been closed"))
      else (w', Returned (PageObj 0))
  | Goto _ _ =>
      if faulty w then (w', Raised (Error "net::ERR_CONNECTION_REFUSED"))
      else (set_dom w' true (hotspots w) false, Returned ())
  | Click l =>
      match matches w l with
      | 0 => (w', Raised (TimeoutError "Timeout 30000ms exceeded"))
      | 1 =>
          if faulty w then (w', Raised (Error "page crashed"))
          else (clicked w' l, Returned ())
      | _ => (w', Raised (Error "strict mode violation"))
      end
  | ExpectToHaveCount l n =>
      if bool_decide (Z.of_nat (matches w l) = n) then
        if faulty w then (w', Raised (Error "page crashed"))
        else (w', Returned ())
      else (w', Raised (AssertionError "Locator expected to have count"))
  | Screenshot _ path _ =>
      if faulty w then (w', Raised (OSError "permission denied"))
      else (set_disk w' (<[path := png]> (disk w)), Returned ())
  | BrowserClose _ =>
      if faulty w then (w', Raised (Error "connection closed"))
      else (w', Returned ())
  | SyncPlaywrightExit _ =>
      if faulty w then (w', Raised (Error "connection closed"))
      else (w', Returned ())
  end.

(** The application as the scenario expects it, with calls [fs] failing. *)
Definition app (fs : list nat) : App :=
  {| button_label := "Add Hotspot"; delete_works := true; faults := fs;
     seen := 0; loaded := false; hotspots := 0; selected := false;
     disk := ∅ |}.

Definition renamed_button : App :=
  {| button_label := "New Marker"; delete_works := true; faults := [];
     seen := 0; loaded := false; hotspots := 0; selected := false;
     disk := ∅ |}.

Definition broken_delete : App :=
  {| button_label := "Add Hotspot"; delete_works := false; faults := [];
     seen := 0; loaded := false; hotspots := 0; selected := false;
     disk := ∅ |}.

Definition leftover_hotspot : App :=
  {| button_label := "Add Hotspot"; delete_works := true; faults := [];
     seen := 0; loaded := false; hotspots := 1; selected := false;
     disk := ∅ |}.

(** The application with a screenshot left over from an earlier run. *)
Definition stale_screenshot : App :=
  {| button_label := "Add Hotspot"; delete_works := true; faults := [];
     seen := 0; loaded := false; hotspots := 0; selected := false;
     disk := {[ screenshot_path := [Byte.x00] ]} |}.

End Stub.

(** The stub library with the browser process made visible: the second
    component tells whether the launched browser is alive. *)
Module ProcessStub.

Definition lib : Library (Stub.App * bool) := λ args env w c,
  let '(app', r) := Stub.lib args env w.1 c in
  let up :=
    match c, r with
    | ChromiumLaunch _ _, Returned _ => true
    | BrowserClose _, Returned _ => false
    | SyncPlaywrightExit _, Returned _ => false
    | _, _ => w.2
    end in
  ((app', up), r).


End ProcessStub.

(** The stub library behind a driver that looks for its Node.js binary
    where the environment variable [PLAYWRIGHT_NODEJS_PATH] says, and does
    not find it there. *)
Module EnvStub.

Definition lib : Library Stub.App := λ args env w c,
  match c with
  | SyncPlaywrightEnter =>
      if bool_decide (is_Some (env !! "PLAYWRIGHT_NODEJS_PATH"))
      then (Stub.tick w, Raised (Error "driver not found"))
      else Stub.lib args env w SyncPlaywrightEnter
  | c' => Stub.lib args env w c'
  end.

End EnvStub.

(** ** Vocabulary of the properties *)

Section Vocabulary.

Context {World : Type}.

(** Once a call has raised, only cleanup calls follow. *)
Fixpoint abandoned_after_failure (l : list (entry World)) : bool :=
  match l with
  | [] => true
  | e :: l' =>
      (if e_raised e is Some _
       then forallb (λ e', is_cleanup (e_call e')) l' else true)
      && abandoned_after_failure l'
  end.

(** Two process states the library cannot tell apart: they may differ in
    the command line and in the environment variables only. *)
Definition agree (s1 s2 : Process World) : Prop :=
  world s1 = world s2 ∧ log s1 = log s2.

(** A computation that looks at neither [argv] nor [environ]. *)
Definition blind {A} (m : M World A) : Prop :=
  ∀ s1 s2, agree s1 s2 → agree (m s1).1 (m s2).1 ∧ (m s1).2 = (m s2).2.

(** Every logged answer is the one the library gives in the logged
    state, and the states follow one another. *)
Inductive served (lib : Library World) (args : list string)
    (env : gmap string string) :
    World → list (entry World) → World → Prop :=
| served_nil w : served lib args env w [] w
| served_cons w c es w' :
    served lib args env (lib args env w c).1 es w' →
    served lib args env w
      (Entry w c (outcome_map (to_value c) (lib args env w c).2) :: es) w'.

(** A computation that only adds lines to the log, each with the answer
    of the library. *)
Definition serves (lib : Library World) {A} (m : M World A) : Prop :=
  ∀ s w0, served lib (argv s) (environ s) w0 (log s) (world s) →
    argv (m s).1 = argv s ∧ environ (m s).1 = environ s ∧
    served lib (argv s) (environ s) w0 (log (m s).1) (world (m s).1).

End Vocabulary.

(** A key that tells the calls of the script apart. *)
Definition call_key (c : call) : nat * string :=
  match c with
  | SyncPlaywrightEnter => (0, EmptyString)
  | ChromiumLaunch _ _ => (1, EmptyString)
  | NewContext _ => (2, EmptyString)
  | NewPage _ => (3, EmptyString)
  | Goto _ url => (4, url)
  | Click l => (5, loc_selector l)
  | ExpectToHaveCount l _ => (6, loc_selector l)
  | Screenshot _ path _ => (7, path)
  | BrowserClose _ => (8, EmptyString)
  | SyncPlaywrightExit _ => (9, EmptyString)
  end.

(** The sequence of operations the specification gives for [run]. *)
Definition claimed_sequence (pw : Playwright) (b : Browser)
    (c : BrowserContext) (p : Page) : list call :=
  [ ChromiumLaunch pw true; NewContext b; NewPage c; Goto p target_url;
    Click (add_hotspot_button p); Click (hotspot_element p);
    Click (delete_button p); ExpectToHaveCount (hotspot_element p) 0%Z;
    Screenshot p screenshot_path None; BrowserClose b ].

(** Everything [main] can ask of the library, in program order. *)
Definition script_calls (pw : Playwright) (b : Browser)
    (c : BrowserContext) (p : Page) : list call :=
  SyncPlaywrightEnter :: claimed_sequence pw b c p ++ [SyncPlaywrightExit pw].

(** The steps of the scenario, in program order. *)
Definition scenario_steps (p : Page) : list call :=
  [ Goto p target_url; Click (add_hotspot_button p);
    Click (hotspot_element p); Click (delete_button p);
    ExpectToHaveCount (hotspot_element p) 0%Z;
    Screenshot p screenshot_path None ].

Definition creates_context_or_page (c : call) : bool :=
  match c with NewContext _ | NewPage _ => true | _ => false end.

(** The calls inside the [try] suite. *)
Definition is_scenario_step (c : call) : bool :=
  match c with
  | Goto _ _ | Click _ | ExpectToHaveCount _ _ | Screenshot _ _ _ => true
  | _ => false
  end.

Definition is_png_path (path : string) : bool :=
  String.eqb (String.substring (String.length path - 4) 4 path) ".png".

Definition is_relative_path (path : string) : bool :=
  negb (String.prefix "/" path).


(** The object a call is made on, as a Python value: the receiver of the
    method, or the page of the locator the method belongs to. *)
Definition call_receiver (c : call) : option value :=
  match c with
  | SyncPlaywrightEnter => None
  | ChromiumLaunch pw _ => Some (VPlaywright pw)
  | NewContext b => Some (VBrowser b)
  | NewPage c => Some (VContext c)
  | Goto p _ => Some (VPage p)
  | Click l => Some (VPage (loc_page l))
  | ExpectToHaveCount l _ => Some (VPage (loc_page l))
  | Screenshot p _ _ => Some (VPage p)
  | BrowserClose b => Some (VBrowser b)
  | SyncPlaywrightExit pw => Some (VPlaywright pw)
  end.

(** Leaving the [with] block. *)
Definition is_library_exit (c : call) : bool :=
  match c with SyncPlaywrightExit _ => true | _ => false end.
(** ** Reasoning about runs *)

Ltac unfold_script :=
  unfold main, with_sync_playwright, run, scenario, try_finally, invoke,
    start, mbind, M_bind, mret, M_ret; simpl.

(** Case analysis on every answer the library gives along a run. *)
Ltac library_paths lib :=
  repeat match goal with
  | |- context [lib ?a ?e ?w ?c] =>
      first [ destruct (lib a e w c) as [? [[]|?]]
            | destruct (lib a e w c) as [? [?|?]] ]; simpl
  end.
Ltac run_paths lib := unfold_script; library_paths lib.

Ltac in_log H :=
  repeat (apply elem_of_cons in H as [H|H]);
  try (by apply elem_of_nil in H); simplify_eq/=.


Lemma abandoned_after_failure_spec {World} (l : list (entry World)) :
  abandoned_after_failure l = true →
  ∀ l1 e l2, l = l1 ++ e :: l2 → is_Some (e_raised e) →
    Forall (λ e', is_cleanup (e_call e') = true) l2.
Proof.
  induction l as [|a l IH]; intros Hb l1 e l2 Heq Hr.
  - by destruct l1.
  - simpl in Hb. apply andb_true_iff in Hb as [Hhd Htl].
    destruct l1 as [|a' l1]; simplify_eq/=.
    + destruct Hr as [x Hx]. rewrite Hx in Hhd.
      apply Forall_forall. intros y Hy.
      eapply forallb_forall in Hhd; [exact Hhd|]. by apply list_elem_of_In.
    + by eapply IH.
Qed.

Section Runs.

Context {World : Type} (lib : Library World).
Implicit Types (args : list string) (env : gmap string string) (w : World).

Lemma main_outcome args env w :
  let s' := (main lib (start args env w)).1 in
  let r := (main lib (start args env w)).2 in
  (r = Returned () ↔ raised_in (log s') = []) ∧
  (∀ x, r = Raised x ↔ last (raised_in (log s')) = Some x).
Proof.
  run_paths lib; (split; [split; done|]);
    intros x; split; intros; by simplify_eq/=.
Qed.

Lemma main_abandoned args env w :
  abandoned_after_failure (log (main lib (start args env w)).1) = true.
Proof. run_paths lib; reflexivity. Qed.

Lemma main_call_keys args env w :
  NoDup (call_key <$> calls (main lib (start args env w)).1).
Proof.
  run_paths lib; apply (bool_decide_unpack _); vm_compute; exact I.
Qed.

(** *** The script is blind to the command line and the environment *)

Section Blind.

Hypothesis Hignores : ignores_process lib.

Lemma blind_ret {A} (a : A) : blind (mret a : M World A).
Proof. by intros s1 s2 H. Qed.

Lemma blind_bind {A B} (m : M World A) (f : A → M World B) :
  blind m → (∀ a, blind (f a)) → blind (m ≫= f).
Proof.
  intros Hm Hf s1 s2 H. destruct (Hm s1 s2 H) as [H1 H2].
  unfold mbind, M_bind.
  destruct (m s1) as [s1' r1], (m s2) as [s2' r2]; simplify_eq/=.
  destruct r2; [by apply Hf | done].
Qed.

Lemma blind_invoke (c : call) : blind (invoke lib c).
Proof.
  intros s1 s2 [Hw Hl]. unfold invoke.
  rewrite Hw, Hl, (Hignores (argv s1) (environ s1) (argv s2) (environ s2)).
  by destruct (lib (argv s2) (environ s2) (world s2) c).
Qed.

Lemma blind_try_finally {A} (body : M World A) (fin : M World unit) :
  blind body → blind fin → blind (try_finally body fin).
Proof.
  intros Hb Hf s1 s2 H. destruct (Hb s1 s2 H) as [H1 H2].
  unfold try_finally.
  destruct (body s1) as [s1' r1], (body s2) as [s2' r2]; simplify_eq/=.
  destruct (Hf s1' s2' H1) as [H3 H4].
  destruct (fin s1') as [s1'' q1], (fin s2') as [s2'' q2]; simplify_eq/=.
  by destruct q2.
Qed.

Local Ltac blind_call :=
  lazymatch goal with
  | |- blind (invoke _ ?c) => exact (blind_invoke c)
  end.

Lemma blind_scenario (page : Page) : blind (scenario lib page).
Proof.
  unfold scenario.
  repeat (apply blind_bind; [blind_call | intros _]).
  blind_call.
Qed.

Lemma blind_run (playwright : Playwright) : blind (run lib playwright).
Proof.
  unfold run.
  repeat (apply blind_bind; [blind_call | intros ?]).
  apply blind_try_finally; [apply blind_scenario | blind_call].
Qed.

Lemma blind_main : blind (main lib).
Proof.
  unfold main, with_sync_playwright.
  apply blind_bind; [blind_call | intros pw].
  apply blind_try_finally; [apply blind_run | blind_call].
Qed.

End Blind.

Lemma served_snoc args env w0 es w1 c :
  served lib args env w0 es w1 →
  served lib args env w0
    (es ++ [Entry w1 c (outcome_map (to_value c) (lib args env w1 c).2)])
    (lib args env w1 c).1.
Proof.
  induction 1 as [w|w c' es w' _ IH]; simpl.
  - apply served_cons, served_nil.
  - by apply served_cons.
Qed.

Lemma served_app_inv args env w0 l1 l2 w2 :
  served lib args env w0 (l1 ++ l2) w2 →
  ∃ w1, served lib args env w0 l1 w1 ∧ served lib args env w1 l2 w2.
Proof.
  revert w0. induction l1 as [|e l1 IH]; intros w0 H; simpl in H.
  - exists w0. split; [apply served_nil | done].
  - inversion H as [|w c es w' Hes]; subst.
    destruct (IH _ Hes) as (w1 & H1 & H2).
    exists w1. split; [by apply served_cons | done].
Qed.


Lemma served_answer args env w0 es w1 e :
  served lib args env w0 es w1 → e ∈ es →
  e_outcome e
  = outcome_map (to_value (e_call e)) (lib args env (e_pre e) (e_call e)).2.
Proof.
  induction 1 as [w|w c es w' _ IH]; intros Hin.
  - by apply elem_of_nil in Hin.
  - apply elem_of_cons in Hin as [->|Hin]; [done | by apply IH].
Qed.

Lemma serves_ret {A} (a : A) : serves lib (mret a : M World A).
Proof. by intros s w0 H. Qed.

Lemma serves_bind {A B} (m : M World A) (f : A → M World B) :
  serves lib m → (∀ a, serves lib (f a)) → serves lib (m ≫= f).
Proof.
  intros Hm Hf s w0 H. destruct (Hm s w0 H) as (Ha & He & Hs).
  unfold mbind, M_bind. destruct (m s) as [s' [a|x]]; simpl in *; [|done].
  rewrite <- Ha, <- He in Hs. destruct (Hf a s' w0 Hs) as (Ha' & He' & Hs').
  by rewrite Ha', He', Ha, He in *.
Qed.

Lemma serves_invoke (c : call) : serves lib (invoke lib c).
Proof.
  intros s w0 H. unfold invoke.
  pose proof (served_snoc _ _ _ _ _ c H) as Hs.
  by destruct (lib (argv s) (environ s) (world s) c).
Qed.

Lemma serves_try_finally {A} (body : M World A) (fin : M World unit) :
  serves lib body → serves lib fin → serves lib (try_finally body fin).
Proof.
  intros Hb Hf s w0 H. destruct (Hb s w0 H) as (Ha & He & Hs).
  unfold try_finally. destruct (body s) as [s1 r]. simpl in *.
  rewrite <- Ha, <- He in Hs. destruct (Hf s1 w0 Hs) as (Ha' & He' & Hs').
  destruct (fin s1) as [s2 [[]|x]]; simpl in *; by rewrite Ha', He', Ha, He in *.
Qed.

Local Ltac serves_call :=
  lazymatch goal with
  | |- serves _ (invoke _ ?c) => exact (serves_invoke c)
  end.

Lemma serves_main : serves lib (main lib).
Proof.
  unfold main, with_sync_playwright, run, scenario.
  repeat first
    [ serves_call
    | apply serves_try_finally
    | apply serves_bind; [|intros ?] ].
Qed.

Lemma main_served args env w :
  served lib args env w (log (main lib (start args env w)).1)
    (world (main lib (start args env w)).1).
Proof. apply (serves_main (start args env w) w), served_nil. Qed.

Lemma main_answer args env w w0 c o :
  Entry w0 c o ∈ log (main lib (start args env w)).1 →
  o = outcome_map (to_value c) (lib args env w0 c).2.
Proof.
  intros Hin. exact (served_answer _ _ _ _ _ _ (main_served args env w) Hin).
Qed.

(** A run ends with status zero exactly when it has issued every call of
    the program and none has raised. *)
Lemma main_passes_iff args env w :
  let s' := (main lib (start args env w)).1 in
  let r := (main lib (start args env w)).2 in
  exit_status r = 0%Z ↔
  ∃ pw b c p, calls s' = script_calls pw b c p ∧ raised_in (log s') = [].
Proof.
  run_paths lib; (split; [intros Hz | intros (pw & b & c & p & Hc & Hr)]);
    try discriminate Hz; try discriminate Hr; [|done].
  by eexists _, _, _, _.
Qed.

(** The script played against the answers a run has recorded issues the
    calls of that run and ends the same way: what the script asks of the
    library is a function of the answers it has got. *)
Lemma main_replays args env w :
  let s' := (main lib (start args env w)).1 in
  let r := (main lib (start args env w)).2 in
  let again := main replay (start [] ∅ (e_outcome <$> log s')) in
  calls s' = calls again.1 ∧ r = again.2.
Proof.
  intros s' r again. subst s' r again.
  remember (main replay) as player eqn:Hplayer.
  run_paths lib; subst player; split; reflexivity.
Qed.

(** The calls of a run are a subsequence of the calls of the program. *)
Lemma main_calls_sublist args env w :
  ∃ pw b c p,
    calls (main lib (start args env w)).1 `sublist_of` script_calls pw b c p.
Proof.
  run_paths lib; eexists _, _, _, _; unfold script_calls, claimed_sequence;
    simpl; repeat first [apply sublist_nil | apply sublist_skip | apply sublist_cons].
  Unshelve.
  all: first [ exact (BrowserObj 0) | exact (BrowserContextObj 0)
             | exact (PageObj 0) | exact (PlaywrightObj 0) ].
Qed.

(** A scenario step that raises ends the scenario: every call before it
    returned, only cleanup follows, the run fails, and it fails with this
    exception unless a cleanup call raises one of its own.  Unless the
    failing step is the screenshot, no screenshot is taken. *)
Lemma failure_is_fatal args env w e x :
  let s' := (main lib (start args env w)).1 in
  let r := (main lib (start args env w)).2 in
  e ∈ log s' → is_scenario_step (e_call e) = true → e_raised e = Some x →
  exit_status r = 1%Z ∧
  (∃ i, log s' !! i = Some e ∧
     Forall (λ e', e_raised e' = None) (take i (log s')) ∧
     Forall (λ e', is_cleanup (e_call e') = true) (drop (S i) (log s'))) ∧
  (∃ x', r = Raised x' ∧
     (x' = x ∨ ∃ e', e' ∈ log s' ∧ is_cleanup (e_call e') = true ∧
                     e_raised e' = Some x')) ∧
  (is_screenshot (e_call e) = false →
     Forall (λ c, is_screenshot c = false) (calls s')).
Proof.
  intros s' r Hin Hstep Hx. unfold e_raised in Hx. revert Hin. subst s' r.
  run_paths lib; intros Hin; in_log Hin; split_and!.
  all: try done.
  all: try (intros Hs; first [discriminate Hs | by repeat constructor]).
  all: try (let at_index k :=
              (exists k; split_and!; [reflexivity | repeat constructor..]) in
            first [ at_index 4 | at_index 5 | at_index 6 | at_index 7
                  | at_index 8 | at_index 9 ]).
  all: eexists; (split; [reflexivity|]).
  all: let cleanup_at k :=
         (right; eexists; split_and!;
          [apply list_elem_of_lookup; exists k; reflexivity
          | reflexivity | reflexivity]) in
       first [ left; reflexivity
             | cleanup_at 11 | cleanup_at 10 | cleanup_at 9 | cleanup_at 8
             | cleanup_at 7 | cleanup_at 6 | cleanup_at 5 ].
Qed.

(** Where a screenshot sits in the log: right after the count assertion
    that returned, and no other call names a file. *)
Lemma screenshot_position args env w e :
  let s' := (main lib (start args env w)).1 in
  e ∈ log s' → is_screenshot (e_call e) = true →
  ∃ p e0,
    e_call e = Screenshot p screenshot_path None ∧
    log s' !! 8 = Some e0 ∧ log s' !! 9 = Some e ∧
    e_call e0 = ExpectToHaveCount (hotspot_element p) 0%Z ∧
    e_outcome e0 = Returned VNone ∧
    Forall (λ e', written_path (e_call e') = None)
      (take 9 (log s') ++ drop 10 (log s')).
Proof.
  intros s' Hin Hshot. revert Hin. subst s'.
  run_paths lib; intros Hin; in_log Hin.
  all: eexists _, _; split_and!; try reflexivity; by repeat constructor.
Qed.

(** *** The file system along a served log *)

Section Files.

Variable files : World → gmap string (list Byte.byte).
Hypothesis Hfs : writes_only_named_files lib files.

Lemma served_files_frame args env w0 es w1 :
  served lib args env w0 es w1 →
  Forall (λ e, written_path (e_call e) = None) es →
  files w1 = files w0.
Proof.
  induction 1 as [w|w c es w' _ IH]; intros Hall; [done|].
  apply Forall_cons in Hall as [Hc Hall]. simpl in Hc.
  rewrite (IH Hall). by apply Hfs.
Qed.

Lemma served_files_screenshot args env w0 l1 e l2 w1 p path fp :
  served lib args env w0 (l1 ++ e :: l2) w1 →
  Forall (λ e', written_path (e_call e') = None) (l1 ++ l2) →
  e_call e = Screenshot p path fp → e_outcome e = Returned VNone →
  ∃ img, files w1 = <[path := img]> (files w0).
Proof.
  intros Hs Hall Hc Ho.
  apply Forall_app in Hall as [Hl1 Hl2].
  apply served_app_inv in Hs as (wa & Ha & Hb).
  inversion Hb as [|w c es w' Hes]; subst; simpl in *; subst.
  destruct Hfs as [_ Hshot].
  destruct (Hshot args env wa p path fp) as [img Himg].
  { by destruct (lib args env wa (Screenshot p path fp)).2 as [[]|]. }
  exists img.
  rewrite (served_files_frame _ _ _ _ _ Hes Hl2), Himg.
  by rewrite (served_files_frame _ _ _ _ _ Ha Hl1).
Qed.

End Files.

End Runs.


(** ** The stub library honours the contract *)

Module StubFacts.

Lemma click_times_out :
  click_times_out_without_match Stub.lib Stub.matches.
Proof. intros args env w l H. simpl. rewrite H. by eexists. Qed.

Lemma click_strict : click_is_strict Stub.lib Stub.matches.
Proof.
  intros args env w l H. simpl.
  destruct (Stub.matches w l) as [|[|n]]; [lia | lia | by eexists].
Qed.

Lemma expect_raises : expect_raises_on_mismatch Stub.lib Stub.matches.
Proof.
  intros args env w l n H. simpl. rewrite bool_decide_false by done.
  by eexists.
Qed.

Lemma writes_named_files : writes_only_named_files Stub.lib Stub.disk.
Proof.
  split.
  - intros args env w c Hc. destruct c; try discriminate Hc; simpl;
      unfold Stub.clicked; repeat case_match; reflexivity.
  - intros args env w p path fp. simpl. destruct (Stub.faulty w); [done|].
    intros _. by eexists.
Qed.

Lemma ignores_process : ignores_process Stub.lib.
Proof. by intros args1 env1 args2 env2 w c. Qed.


End StubFacts.

(** ** The claims *)

Section Claims.

Context {World : Type} (lib : Library World).
Implicit Types (args : list string) (env : gmap string string) (w : World).

(** C1, in the form that holds of the code: a run of [run] in which no
    call raises issues exactly the specified sequence of operations, from
    launching the headless browser to closing it.  Every run issues an
    initial part of that sequence, which ends with the first call that
    raises, followed by the browser close once the scenario has been
    entered; no call is issued twice. *)
Theorem run_call_sequence (pw : Playwright) args env w :
  let s' := (run lib pw (start args env w)).1 in
  ∃ b c p,
    (raised_in (log s') = [] → calls s' = claimed_sequence pw b c p) ∧
    ∃ k, 1 ≤ k ≤ 9 ∧
      calls s' = take k (claimed_sequence pw b c p)
                 ++ (if decide (4 ≤ k) then [BrowserClose b] else []) ∧
      e_raised <$> take (k - 1) (log s') = replicate (k - 1) None ∧
      (k < 9 → ∃ e, log s' !! (k - 1) = Some e ∧ is_Some (e_raised e)) ∧
      NoDup (calls s').
Proof.
  intros s'.
  assert (Hkeys : NoDup (call_key <$> calls s')).
  { subst s'. run_paths lib; apply (bool_decide_unpack _); vm_compute; exact I. }
  apply (NoDup_fmap_1 call_key) in Hkeys. revert Hkeys. subst s'.
  run_paths lib; intros Hnodup; eexists _, _, _;
    (split; [intros Hnone; first [discriminate Hnone | reflexivity]|]).
  all: let try_k k :=
         (exists k; split_and!;
          [lia | lia | reflexivity | reflexivity
          | first [ intros; lia
                  | intros _; eexists; split; [reflexivity | by eexists] ]
          | exact Hnodup ]) in
       first [ try_k 1 | try_k 2 | try_k 3 | try_k 4 | try_k 5
             | try_k 6 | try_k 7 | try_k 8 | try_k 9 ].
  Unshelve.
  all: first [ exact (BrowserObj 0) | exact (BrowserContextObj 0)
             | exact (PageObj 0) ].
Qed.


(** C3, in the form that holds of the code: the sixth and last step of a
    successful run is one screenshot call with the fixed output path and
    without [full_page], so with the default of the library: the visible
    viewport only. *)
Theorem successful_run_takes_default_screenshot args env w :
  let s' := (main lib (start args env w)).1 in
  let r := (main lib (start args env w)).2 in
  r = Returned () →
  ∃ p,
    List.filter is_scenario_step (calls s') = scenario_steps p ∧
    List.filter is_screenshot (calls s') = [Screenshot p screenshot_path None] ∧
    scenario_steps p !! 5 = Some (Screenshot p screenshot_path None) ∧
    written_path (Screenshot p screenshot_path None) = Some screenshot_path ∧
    is_full_page_screenshot (Screenshot p screenshot_path None) = false.
Proof.
  intros s' r. subst s' r.
  run_paths lib; intros Hr; try discriminate Hr.
  by eexists.
Qed.

(** C4, in the form that holds of the code: the exit status is zero
    exactly when every step, the count assertion included, and the two
    cleanup calls have been issued and none has raised.  A call that raises
    is not caught and not retried: the run then ends with status one, no
    call is issued twice, after the failure only cleanup calls follow, and
    the exception that reaches the process boundary is the last one
    raised. *)
Theorem exit_status_zero_iff_every_call_returns args env w :
  let s' := (main lib (start args env w)).1 in
  let r := (main lib (start args env w)).2 in
  (exit_status r = 0%Z ↔
   ∃ pw b c p, calls s' = script_calls pw b c p ∧ raised_in (log s') = []) ∧
  (∀ e, e ∈ log s' → is_Some (e_raised e) → exit_status r = 1%Z) ∧
  (∀ x, r = Raised x ↔ last (raised_in (log s')) = Some x) ∧
  NoDup (calls s') ∧
  (∀ l1 e l2, log s' = l1 ++ e :: l2 → is_Some (e_raised e) →
     Forall (λ e', is_cleanup (e_call e') = true) l2).
Proof.
  intros s' r. destruct (main_outcome lib args env w) as [Hok Hex].
  fold s' r in Hok, Hex. split_and!.
  - apply main_passes_iff.
  - intros e Hin [x Hx]. destruct r as [[]|y]; [|done].
    destruct Hok as [Hok _]. specialize (Hok eq_refl).
    unfold raised_in in Hok.
    assert (Hx' : x ∈ omap e_raised (log s')).
    { apply list_elem_of_omap. by exists e. }
    rewrite Hok in Hx'. by apply elem_of_nil in Hx'.
  - exact Hex.
  - eapply NoDup_fmap_1, main_call_keys.
  - apply abandoned_after_failure_spec, main_abandoned.
Qed.

(** C5: the only count assertion of a run expects exactly zero elements
    for the hotspot-marker selector.  When the locator resolves to any
    other number of elements, the assertion raises, every step before it
    had returned, no screenshot is taken, only cleanup follows, and the
    run ends with a non-zero status.  A run ends with status zero only if
    the assertion has seen no hotspot marker. *)
Theorem count_assertion_expects_zero (matches : World → Locator → nat)
    (Hexpect : expect_raises_on_mismatch lib matches) args env w :
  let s' := (main lib (start args env w)).1 in
  let r := (main lib (start args env w)).2 in
  (∀ e l n, e ∈ log s' → e_call e = ExpectToHaveCount l n →
     (∃ p, l = hotspot_element p) ∧ n = 0%Z ∧
     (matches (e_pre e) l ≠ 0 →
        ∃ msg, e_outcome e = Raised (AssertionError msg) ∧
          exit_status r = 1%Z ∧
          Forall (λ c, is_screenshot c = false) (calls s') ∧
          (∃ i, log s' !! i = Some e ∧
             Forall (λ e', e_raised e' = None) (take i (log s')) ∧
             Forall (λ e', is_cleanup (e_call e') = true)
               (drop (S i) (log s'))) ∧
          ∃ x, r = Raised x ∧
            (x = AssertionError msg ∨
             ∃ e', e' ∈ log s' ∧ is_cleanup (e_call e') = true ∧
                   e_raised e' = Some x))) ∧
  (exit_status r = 0%Z →
     ∃ e p, e ∈ log s' ∧
       e_call e = ExpectToHaveCount (hotspot_element p) 0%Z ∧
       matches (e_pre e) (hotspot_element p) = 0).
Proof.
  intros s' r. split.
  - intros e l n Hin Hcall.
    assert (Hargs : (∃ p, l = hotspot_element p) ∧ n = 0%Z).
    { destruct (main_calls_sublist lib args env w) as (pw & b & c & p & Hsub).
      apply sublist_subseteq in Hsub.
      assert (Hc : e_call e ∈ script_calls pw b c p).
      { apply Hsub. unfold calls. by apply list_elem_of_fmap_2. }
      rewrite Hcall in Hc. unfold script_calls, claimed_sequence in Hc.
      in_log Hc. split; [by exists p | done]. }
    destruct Hargs as [Hl ->]. split_and!; [done..|]. intros Hcount.
    destruct (Hexpect args env (e_pre e) l 0%Z) as [msg Hmsg]; [lia|].
    destruct e as [w0 c o]. simpl in *. subst c.
    pose proof (main_answer lib args env w _ _ _ Hin) as Hans.
    simpl in Hans. rewrite Hmsg in Hans. simpl in Hans. subst o.
    destruct (failure_is_fatal lib args env w _ (AssertionError msg) Hin)
      as (Hexit & Hpos & Hprop & Hshot); [done..|].
    exists msg. split_and!; [done | done | by apply Hshot | done | done].
  - intros Hzero.
    assert (Hin : ∃ w0 p, Entry w0 (ExpectToHaveCount (hotspot_element p) 0%Z)
                            (Returned VNone) ∈ log s').
    { revert Hzero. subst s' r.
      run_paths lib; intros Hz; try discriminate Hz.
      eexists _, _. apply list_elem_of_lookup. by exists 8. }
    destruct Hin as (w0 & p & Hin). eexists _, p.
    split_and!; [exact Hin | done |]. simpl.
    destruct (decide (matches w0 (hotspot_element p) = 0)) as [|Hne]; [done|].
    destruct (Hexpect args env w0 (hotspot_element p) 0%Z) as [msg Hmsg]; [lia|].
    pose proof (main_answer lib args env w _ _ _ Hin) as Hans.
    simpl in Hans, Hmsg. rewrite Hmsg in Hans. discriminate Hans.
Qed.

(** C6: the only file a run asks the library to write is the PNG image at
    the fixed relative path, at most once, and only right after the count
    assertion has returned.  A run that fails in a step before the
    screenshot leaves the file system as it was; a screenshot that returns
    has replaced the file at that path and changed nothing else. *)
Theorem screenshot_is_the_only_file_written
    (files : World → gmap string (list Byte.byte))
    (Hfs : writes_only_named_files lib files) args env w :
  let s' := (main lib (start args env w)).1 in
  (∀ c path, c ∈ calls s' → written_path c = Some path →
     path = screenshot_path) ∧
  length (omap written_path (calls s')) ≤ 1 ∧
  is_png_path screenshot_path = true ∧
  is_relative_path screenshot_path = true ∧
  (∀ e, e ∈ log s' → is_screenshot (e_call e) = true →
     ∃ e0 p, log s' !! 8 = Some e0 ∧ log s' !! 9 = Some e ∧
       e_call e0 = ExpectToHaveCount (hotspot_element p) 0%Z ∧
       e_outcome e0 = Returned VNone) ∧
  (Forall (λ c, is_screenshot c = false) (calls s') →
     files (world s') = files w) ∧
  (∀ e, e ∈ log s' → is_scenario_step (e_call e) = true →
     is_screenshot (e_call e) = false → is_Some (e_raised e) →
     files (world s') = files w) ∧
  (∀ e, e ∈ log s' → is_screenshot (e_call e) = true →
     e_outcome e = Returned VNone →
     ∃ img, files (world s') = <[screenshot_path := img]> (files w)).
Proof.
  intros s'.
  assert (Hframe : Forall (λ c, is_screenshot c = false) (calls s') →
                   files (world s') = files w).
  { intros Hnone.
    apply (served_files_frame lib files Hfs _ _ _ _ _
             (main_served lib args env w)).
    unfold calls in Hnone. apply Forall_fmap in Hnone.
    eapply Forall_impl; [exact Hnone|]. intros e He. simpl in He.
    by destruct (e_call e). }
  split_and!.
  - intros c path Hc Hp.
    destruct (main_calls_sublist lib args env w) as (pw & b & c0 & p & Hsub).
    apply sublist_subseteq in Hsub. apply Hsub in Hc.
    unfold script_calls, claimed_sequence in Hc. in_log Hc. done.
  - subst s'. run_paths lib; simpl; lia.
  - reflexivity.
  - reflexivity.
  - intros e Hin Hshot.
    destruct (screenshot_position lib args env w e Hin Hshot)
      as (p & e0 & _ & H8 & H9 & Hc0 & Ho0 & _).
    by exists e0, p.
  - exact Hframe.
  - intros e Hin Hstep Hshot [x Hx]. apply Hframe.
    by apply (failure_is_fatal lib args env w e x Hin Hstep Hx).
  - intros e Hin Hshot Hret.
    destruct (screenshot_position lib args env w e Hin Hshot)
      as (p & e0 & Hc & _ & H9 & _ & _ & Hrest).
    pose proof (main_served lib args env w) as Hs.
    rewrite <- (take_drop_middle _ _ _ H9) in Hs at 1.
    by eapply served_files_screenshot.
Qed.

(** C7: when no element matches the locator of the "Add Hotspot" button,
    the click of step 2 raises a timeout error, the run ends with a
    non-zero status, and of the scenario only the navigation and this click
    have been issued. *)
Theorem missing_add_hotspot_button_times_out (matches : World → Locator → nat)
    (Hclick : click_times_out_without_match lib matches) args env w :
  let s' := (main lib (start args env w)).1 in
  let r := (main lib (start args env w)).2 in
  ∀ e p, e ∈ log s' → e_call e = Click (add_hotspot_button p) →
    matches (e_pre e) (add_hotspot_button p) = 0 →
    ∃ msg, e_outcome e = Raised (TimeoutError msg) ∧
      exit_status r = 1%Z ∧
      List.filter is_scenario_step (calls s') = take 2 (scenario_steps p) ∧
      ∃ x, r = Raised x ∧
        (x = TimeoutError msg ∨
         ∃ e', e' ∈ log s' ∧ is_cleanup (e_call e') = true ∧
               e_raised e' = Some x).
Proof.
  intros s' r e p Hin Hcall Hnone.
  destruct (Hclick args env _ _ Hnone) as [msg Hmsg].
  destruct e as [w0 c o]. simpl in *. subst c.
  pose proof (main_answer lib args env w _ _ _ Hin) as Hans.
  simpl in Hans. rewrite Hmsg in Hans. simpl in Hans. subst o.
  destruct (failure_is_fatal lib args env w _ (TimeoutError msg) Hin)
    as (Hexit & _ & Hprop & _); [done..|].
  exists msg. split_and!; [done | done | | done].
  clear Hexit Hprop Hmsg Hnone. revert Hin. subst s' r.
  run_paths lib; intros Hin; in_log Hin; reflexivity.
Qed.

(** C9: when creating the browsing context or the page raises, the browser
    has been launched, no step of the scenario has been issued, and the
    script never asks for the browser to be closed.  Once a step of the
    scenario has been issued, the launched browser is closed. *)
Theorem browser_not_closed_when_setup_fails args env w :
  let s' := (main lib (start args env w)).1 in
  (∀ e, e ∈ log s' → creates_context_or_page (e_call e) = true →
     is_Some (e_raised e) →
     (∃ w0 pw b,
        Entry w0 (ChromiumLaunch pw true) (Returned (VBrowser b)) ∈ log s') ∧
     Forall (λ c, is_scenario_step c = false) (calls s') ∧
     ∀ b, BrowserClose b ∉ calls s') ∧
  (∀ e, e ∈ log s' → is_scenario_step (e_call e) = true →
     ∃ w0 pw b,
       Entry w0 (ChromiumLaunch pw true) (Returned (VBrowser b)) ∈ log s' ∧
       BrowserClose b ∈ calls s').
Proof.
  intros s'. subst s'. split.
  - intros e Hin Hc [x Hx]. unfold e_raised in Hx. revert Hin.
    run_paths lib; intros Hin; in_log Hin.
    all: split; [do 3 eexists; apply list_elem_of_lookup; by exists 1|].
    all: split; [by repeat constructor|].
    all: intros b' Hb; in_log Hb.
  - intros e Hin Hc. revert Hin.
    run_paths lib; intros Hin; in_log Hin.
    all: eexists _, _, _; split; [apply list_elem_of_lookup; by exists 1|].
    all: apply list_elem_of_lookup;
      first [ by exists 5 | by exists 6 | by exists 7 | by exists 8
            | by exists 9 | by exists 10 ].
Qed.

(** C10: every click of a run targets one of the three locators of the
    script, and a click whose locator resolves to more than one element
    raises instead of clicking one of them: every step before it had
    returned, only cleanup follows, and the run ends with a non-zero
    status. *)
Theorem ambiguous_click_target_fails_run (matches : World → Locator → nat)
    (Hstrict : click_is_strict lib matches) args env w :
  let s' := (main lib (start args env w)).1 in
  let r := (main lib (start args env w)).2 in
  ∀ e l, e ∈ log s' → e_call e = Click l →
    (∃ p, l = add_hotspot_button p ∨ l = hotspot_element p ∨
          l = delete_button p) ∧
    (1 < matches (e_pre e) l →
       ∃ msg, e_outcome e = Raised (Error msg) ∧
         exit_status r = 1%Z ∧
         (∃ i, log s' !! i = Some e ∧
            Forall (λ e', e_raised e' = None) (take i (log s')) ∧
            Forall (λ e', is_cleanup (e_call e') = true) (drop (S i) (log s'))) ∧
         ∃ x, r = Raised x ∧
           (x = Error msg ∨
            ∃ e', e' ∈ log s' ∧ is_cleanup (e_call e') = true ∧
                  e_raised e' = Some x)).
Proof.
  intros s' r e l Hin Hcall. split.
  - destruct (main_calls_sublist lib args env w) as (pw & b & c & p & Hsub).
    apply sublist_subseteq in Hsub.
    assert (Hc : e_call e ∈ script_calls pw b c p).
    { apply Hsub. unfold calls. by apply list_elem_of_fmap_2. }
    rewrite Hcall in Hc. unfold script_calls, claimed_sequence in Hc.
    exists p. in_log Hc; auto.
  - intros Hmany. destruct (Hstrict args env _ _ Hmany) as [msg Hmsg].
    destruct e as [w0 c o]. simpl in *. subst c.
    pose proof (main_answer lib args env w _ _ _ Hin) as Hans.
    simpl in Hans. rewrite Hmsg in Hans. simpl in Hans. subst o.
    destruct (failure_is_fatal lib args env w _ (Error msg) Hin)
      as (Hexit & Hpos & Hprop & _); [done..|].
    by exists msg.
Qed.

(** C8, in the form that holds of the code: the script consumes neither
    the command line nor the environment.  Two invocations that differ
    only in these and to which the library gives the same answers issue
    the same calls and end the same way; with a library that acts on
    neither, the two runs are the same call by call, state by state. *)
Theorem calls_depend_on_library_answers_only args1 env1 args2 env2 w :
  let run1 := main lib (start args1 env1 w) in
  let run2 := main lib (start args2 env2 w) in
  (e_outcome <$> log run1.1 = e_outcome <$> log run2.1 →
     calls run1.1 = calls run2.1 ∧ run1.2 = run2.2) ∧
  (ignores_process lib →
     calls run1.1 = calls run2.1 ∧ log run1.1 = log run2.1 ∧
     world run1.1 = world run2.1 ∧ run1.2 = run2.2).
Proof.
  intros run1 run2. split.
  - intros Hanswers.
    destruct (main_replays lib args1 env1 w) as [Hc1 Hr1].
    destruct (main_replays lib args2 env2 w) as [Hc2 Hr2].
    fold run1 in Hc1, Hr1. fold run2 in Hc2, Hr2.
    rewrite Hc1, Hr1, Hc2, Hr2. by rewrite Hanswers.
  - intros Hignores.
    destruct (blind_main lib Hignores (start args1 env1 w) (start args2 env2 w))
      as [[Hw Hl] Hr]; [by split|].
    unfold calls. fold run1 run2 in Hw, Hl, Hr. by rewrite Hw, Hl, Hr.
Qed.

End Claims.

(** ** The claims on the stub application *)

(** The [i]-th line of the log of a run, evaluated. *)
Ltac pose_entry e l i :=
  let v := eval vm_compute in (l !! i) in
  lazymatch v with
  | Some ?e0 =>
      pose (e := e0);
      assert (e ∈ l) by
        (apply list_elem_of_lookup; exists i; vm_compute; reflexivity)
  end.

(** Counterexample to C1 as stated: when the navigation raises, [run] goes
    straight to closing the browser, and what it has issued is not the
    specified sequence for any browser, context and page. *)
Lemma run_skips_steps_after_failed_navigation :
  let s' := (run Stub.lib (PlaywrightObj 0) (start [] ∅ (Stub.app [3]))).1 in
  calls s' = [ ChromiumLaunch (PlaywrightObj 0) true; NewContext (BrowserObj 0);
               NewPage (BrowserContextObj 0); Goto (PageObj 0) target_url;
               BrowserClose (BrowserObj 0) ] ∧
  ∀ b c p, calls s' ≠ claimed_sequence (PlaywrightObj 0) b c p.
Proof.
  split; [reflexivity|]. intros b c p H. vm_compute in H. discriminate H.
Qed.


(** Counterexample to C3 as stated: the run succeeds, and its only
    screenshot is not a full-page one. *)
Lemma successful_run_screenshot_is_not_full_page :
  let s' := (main Stub.lib (start [] ∅ (Stub.app []))).1 in
  let r := (main Stub.lib (start [] ∅ (Stub.app []))).2 in
  r = Returned () ∧
  List.filter is_screenshot (calls s')
    = [Screenshot (PageObj 0) screenshot_path None] ∧
  Forall (λ c, is_full_page_screenshot c = false) (calls s').
Proof. vm_compute. split_and!; [reflexivity | reflexivity | by repeat constructor]. Qed.

(** C3 on the stub as the scenario expects it. *)
Lemma successful_run_takes_default_screenshot_witness :
  let s' := (main Stub.lib (start [] ∅ (Stub.app []))).1 in
  let r := (main Stub.lib (start [] ∅ (Stub.app []))).2 in
  r = Returned () ∧
  ∃ p,
    List.filter is_scenario_step (calls s') = scenario_steps p ∧
    List.filter is_screenshot (calls s') = [Screenshot p screenshot_path None] ∧
    scenario_steps p !! 5 = Some (Screenshot p screenshot_path None) ∧
    written_path (Screenshot p screenshot_path None) = Some screenshot_path ∧
    is_full_page_screenshot (Screenshot p screenshot_path None) = false.
Proof.
  split; [reflexivity|].
  apply (successful_run_takes_default_screenshot Stub.lib [] ∅ (Stub.app [])).
  reflexivity.
Defined.

(** C5 on the stub whose delete handler is broken: one marker is left. *)
Lemma count_assertion_expects_zero_witness :
  let s' := (main Stub.lib (start [] ∅ Stub.broken_delete)).1 in
  let r := (main Stub.lib (start [] ∅ Stub.broken_delete)).2 in
  expect_raises_on_mismatch Stub.lib Stub.matches ∧
  ∃ e, e ∈ log s' ∧
    e_call e = ExpectToHaveCount (hotspot_element (PageObj 0)) 0%Z ∧
    Stub.matches (e_pre e) (hotspot_element (PageObj 0)) = 1 ∧
    ∃ msg, e_outcome e = Raised (AssertionError msg) ∧ exit_status r = 1%Z ∧
      Forall (λ c, is_screenshot c = false) (calls s').
Proof.
  intros s' r. subst s' r. split; [exact StubFacts.expect_raises|].
  pose_entry e (log (main Stub.lib (start [] ∅ Stub.broken_delete)).1) 8. rename select (e ∈ _) into He. exists e.
  assert (Hcall : e_call e = ExpectToHaveCount (hotspot_element (PageObj 0)) 0%Z)
    by reflexivity.
  assert (Hone : Stub.matches (e_pre e) (hotspot_element (PageObj 0)) = 1)
    by (vm_compute; reflexivity).
  split_and!; [exact He | exact Hcall | exact Hone |].
  pose proof (count_assertion_expects_zero Stub.lib Stub.matches
                StubFacts.expect_raises [] ∅ Stub.broken_delete) as Hthm.
  cbv zeta in Hthm. destruct Hthm as [Hthm _].
  specialize (Hthm e _ _ He Hcall). destruct Hthm as (_ & _ & Hfail).
  destruct Hfail as (msg & Hmsg & Hexit & Hshot & _); [by rewrite Hone|].
  exists msg. split_and!; [exact Hmsg | exact Hexit | exact Hshot].
Defined.

(** C6 on the stub with a screenshot left from an earlier run: the file
    is replaced. *)
Lemma screenshot_is_the_only_file_written_witness :
  let s' := (main Stub.lib (start [] ∅ Stub.stale_screenshot)).1 in
  writes_only_named_files Stub.lib Stub.disk ∧
  Stub.disk Stub.stale_screenshot !! screenshot_path = Some [Byte.x00] ∧
  ∃ img, Stub.disk (world s')
         = <[screenshot_path := img]> (Stub.disk Stub.stale_screenshot).
Proof.
  intros s'. subst s'. split; [exact StubFacts.writes_named_files|].
  split; [vm_compute; reflexivity|].
  pose_entry e (log (main Stub.lib (start [] ∅ Stub.stale_screenshot)).1) 9. rename select (e ∈ _) into He.
  assert (Hshot : is_screenshot (e_call e) = true) by reflexivity.
  assert (Hret : e_outcome e = Returned VNone) by reflexivity.
  pose proof (screenshot_is_the_only_file_written Stub.lib Stub.disk
                StubFacts.writes_named_files [] ∅ Stub.stale_screenshot) as Hthm.
  cbv zeta in Hthm. destruct Hthm as (_ & _ & _ & _ & _ & _ & _ & Hthm).
  exact (Hthm e He Hshot Hret).
Defined.

(** C7 on the stub whose toolbar button has been renamed. *)
Lemma missing_add_hotspot_button_times_out_witness :
  let s' := (main Stub.lib (start [] ∅ Stub.renamed_button)).1 in
  let r := (main Stub.lib (start [] ∅ Stub.renamed_button)).2 in
  click_times_out_without_match Stub.lib Stub.matches ∧
  ∃ e, e ∈ log s' ∧ e_call e = Click (add_hotspot_button (PageObj 0)) ∧
    Stub.matches (e_pre e) (add_hotspot_button (PageObj 0)) = 0 ∧
    ∃ msg, e_outcome e = Raised (TimeoutError msg) ∧ exit_status r = 1%Z ∧
      List.filter is_scenario_step (calls s')
        = take 2 (scenario_steps (PageObj 0)).
Proof.
  intros s' r. subst s' r. split; [exact StubFacts.click_times_out|].
  pose_entry e (log (main Stub.lib (start [] ∅ Stub.renamed_button)).1) 5. rename select (e ∈ _) into He. exists e.
  assert (Hcall : e_call e = Click (add_hotspot_button (PageObj 0)))
    by reflexivity.
  assert (Hnone : Stub.matches (e_pre e) (add_hotspot_button (PageObj 0)) = 0)
    by (vm_compute; reflexivity).
  split_and!; [exact He | exact Hcall | exact Hnone |].
  pose proof (missing_add_hotspot_button_times_out Stub.lib Stub.matches
                StubFacts.click_times_out [] ∅ Stub.renamed_button) as Hthm.
  cbv zeta in Hthm. specialize (Hthm e _ He Hcall Hnone).
  destruct Hthm as (msg & Hmsg & Hexit & Hsteps & _).
  exists msg. split_and!; [exact Hmsg | exact Hexit | exact Hsteps].
Defined.

(** C10 on the stub that starts with a marker: after adding one, the
    marker locator resolves to two elements. *)
Lemma ambiguous_click_target_fails_run_witness :
  let s' := (main Stub.lib (start [] ∅ Stub.leftover_hotspot)).1 in
  let r := (main Stub.lib (start [] ∅ Stub.leftover_hotspot)).2 in
  click_is_strict Stub.lib Stub.matches ∧
  ∃ e, e ∈ log s' ∧ e_call e = Click (hotspot_element (PageObj 0)) ∧
    Stub.matches (e_pre e) (hotspot_element (PageObj 0)) = 2 ∧
    ∃ msg, e_outcome e = Raised (Error msg) ∧ exit_status r = 1%Z.
Proof.
  intros s' r. subst s' r. split; [exact StubFacts.click_strict|].
  pose_entry e (log (main Stub.lib (start [] ∅ Stub.leftover_hotspot)).1) 6. rename select (e ∈ _) into He. exists e.
  assert (Hcall : e_call e = Click (hotspot_element (PageObj 0)))
    by reflexivity.
  assert (Htwo : Stub.matches (e_pre e) (hotspot_element (PageObj 0)) = 2)
    by (vm_compute; reflexivity).
  split_and!; [exact He | exact Hcall | exact Htwo |].
  pose proof (ambiguous_click_target_fails_run Stub.lib Stub.matches
                StubFacts.click_strict [] ∅ Stub.leftover_hotspot) as Hthm.
  cbv zeta in Hthm. specialize (Hthm e _ He Hcall).
  destruct Hthm as (_ & Hfail).
  destruct Hfail as (msg & Hmsg & Hexit & _); [rewrite Htwo; lia|].
  exists msg. split; [exact Hmsg | exact Hexit].
Defined.

(** C9 on the stub whose page creation fails: the browser stays open. *)
Lemma browser_not_closed_when_setup_fails_witness :
  let s' := (main Stub.lib (start [] ∅ (Stub.app [3]))).1 in
  ∃ e, e ∈ log s' ∧ e_call e = NewPage (BrowserContextObj 0) ∧
    is_Some (e_raised e) ∧
    (∃ w0 pw b,
       Entry w0 (ChromiumLaunch pw true) (Returned (VBrowser b)) ∈ log s') ∧
    ∀ b, BrowserClose b ∉ calls s'.
Proof.
  intros s'. subst s'.
  pose_entry e (log (main Stub.lib (start [] ∅ (Stub.app [3]))).1) 3.
  rename select (e ∈ _) into He. exists e.
  assert (Hc : creates_context_or_page (e_call e) = true) by reflexivity.
  assert (Hr : is_Some (e_raised e)) by (by eexists).
  pose proof (browser_not_closed_when_setup_fails Stub.lib [] ∅ (Stub.app [3]))
    as Hthm.
  cbv zeta in Hthm. destruct Hthm as [Hthm _].
  destruct (Hthm e He Hc Hr) as (Hl & _ & Hnc).
  split_and!; [exact He | reflexivity | exact Hr | exact Hl | exact Hnc].
Defined.


(** Counterexample to C4 as stated: every step of the scenario and the
    count assertion return, closing the browser raises, and the process
    ends with status one. *)
Lemma failing_close_fails_passing_scenario :
  let s' := (main Stub.lib (start [] ∅ (Stub.app [10]))).1 in
  let r := (main Stub.lib (start [] ∅ (Stub.app [10]))).2 in
  List.filter is_scenario_step (calls s') = scenario_steps (PageObj 0) ∧
  e_outcome <$> List.filter (λ e, is_scenario_step (e_call e)) (log s')
    = replicate 6 (Returned VNone) ∧
  exit_status r = 1%Z.
Proof. vm_compute. by split_and!. Qed.

(** Counterexample to C8 as stated: a library that reads the environment
    answers two invocations differently, and the calls differ. *)
Lemma library_reading_environ_changes_calls :
  let run1 := main EnvStub.lib (start [] ∅ (Stub.app [])) in
  let run2 :=
    main EnvStub.lib
      (start [] {[ "PLAYWRIGHT_NODEJS_PATH" := "/nonexistent/node" ]}
         (Stub.app [])) in
  length (calls run1.1) = 12 ∧ calls run2.1 = [SyncPlaywrightEnter] ∧
  calls run1.1 ≠ calls run2.1.
Proof.
  split_and!; [vm_compute; reflexivity | vm_compute; reflexivity |].
  intros H. apply (f_equal length) in H. vm_compute in H. discriminate H.
Qed.

(** C8 on the library that reads the environment, with a variable it does
    not look at and another command line. *)
Lemma calls_depend_on_library_answers_only_witness :
  let run1 := main EnvStub.lib (start [] ∅ (Stub.app [])) in
  let run2 :=
    main EnvStub.lib
      (start ["--headed"] {[ "HOME" := "/root" ]} (Stub.app [])) in
  e_outcome <$> log run1.1 = e_outcome <$> log run2.1 ∧
  calls run1.1 = calls run2.1 ∧ run1.2 = run2.2.
Proof.
  intros run1 run2. subst run1 run2.
  assert (Hsame :
    e_outcome <$> log (main EnvStub.lib (start [] ∅ (Stub.app []))).1
    = e_outcome <$> log (main EnvStub.lib
                           (start ["--headed"] {[ "HOME" := "/root" ]}
                              (Stub.app []))).1)
    by (vm_compute; reflexivity).
  split; [exact Hsame|].
  pose proof (calls_depend_on_library_answers_only EnvStub.lib
                [] ∅ ["--headed"] {[ "HOME" := "/root" ]} (Stub.app []))
    as Hthm.
  cbv zeta in Hthm. destruct Hthm as [Hthm _]. exact (Hthm Hsame).
Defined.

(** ** Further properties of the script *)

(** Case analysis on the position of a line in the log of one path. *)
Ltac at_index i H :=
  repeat (destruct i as [|i]; simpl in H; [injection H as <-|]);
  try discriminate H.

Section Coverage.

Context {World : Type} (lib : Library World).
Implicit Types (args : list string) (env : gmap string string) (w : World).

(** A run that ends with status zero has taken the screenshot, and the
    screenshot returned. *)
Lemma passing_run_took_screenshot args env w :
  exit_status (main lib (start args env w)).2 = 0%Z →
  ∃ e, e ∈ log (main lib (start args env w)).1 ∧
    is_screenshot (e_call e) = true ∧ e_outcome e = Returned VNone.
Proof.
  run_paths lib; intros Hz; try discriminate Hz.
  eexists. split; [apply list_elem_of_lookup; by exists 9 | done].
Qed.

Section WithFiles.

Variable files : World → gmap string (list Byte.byte).
Hypothesis Hfs : writes_only_named_files lib files.

Lemma passing_run_files args env w :
  exit_status (main lib (start args env w)).2 = 0%Z →
  ∃ img, files (world (main lib (start args env w)).1)
         = <[screenshot_path := img]> (files w).
Proof.
  intros Hz.
  destruct (passing_run_took_screenshot args env w Hz) as (e & Hin & Hshot & Hret).
  destruct (screenshot_position lib args env w e Hin Hshot)
    as (p & e0 & Hc & _ & H9 & _ & _ & Hrest).
  pose proof (main_served lib args env w) as Hs.
  rewrite <- (take_drop_middle _ _ _ H9) in Hs at 1.
  by eapply served_files_screenshot.
Qed.

End WithFiles.

(** Every method is called on an object that the library returned earlier
    in the same run: the script makes up no object of its own and mixes up
    none. *)
Theorem receivers_come_from_earlier_calls args env w :
  let s' := (main lib (start args env w)).1 in
  ∀ i e v, log s' !! i = Some e → call_receiver (e_call e) = Some v →
    ∃ j e0, j < i ∧ log s' !! j = Some e0 ∧ e_outcome e0 = Returned v.
Proof.
  intros s' i e v. subst s'.
  run_paths lib; intros Hi Hv; at_index i Hi; simpl in Hv; simplify_eq.
  all: first [ by (exists 0; eexists; split_and!; [lia | reflexivity..])
             | by (exists 1; eexists; split_and!; [lia | reflexivity..])
             | by (exists 2; eexists; split_and!; [lia | reflexivity..])
             | by (exists 3; eexists; split_and!; [lia | reflexivity..]) ].
Qed.

(** Once [sync_playwright()] has been entered, the [with] block is left
    exactly once, as the last call of the run, whatever happened inside.
    When entering raises, that call is the whole run and its exception
    ends the process. *)
Theorem with_block_is_always_left args env w :
  let s' := (main lib (start args env w)).1 in
  let r := (main lib (start args env w)).2 in
  (∀ w0 pw, Entry w0 SyncPlaywrightEnter (Returned (VPlaywright pw)) ∈ log s' →
     last (calls s') = Some (SyncPlaywrightExit pw) ∧
     List.filter is_library_exit (calls s') = [SyncPlaywrightExit pw]) ∧
  (∀ w0 x, Entry w0 SyncPlaywrightEnter (Raised x) ∈ log s' →
     calls s' = [SyncPlaywrightEnter] ∧ r = Raised x).
Proof.
  intros s' r. subst s' r. split.
  - intros w0 pw. run_paths lib; intros Hin; in_log Hin; by split.
  - intros w0 x. run_paths lib; intros Hin; in_log Hin; by split.
Qed.

(** When launching the browser raises, the script creates no context and
    no page, enters no scenario and has nothing to close: it leaves the
    [with] block and the process fails, with the launch error unless
    leaving raises one of its own. *)
Theorem failed_launch_ends_run args env w :
  let s' := (main lib (start args env w)).1 in
  let r := (main lib (start args env w)).2 in
  ∀ w0 pw headless x,
    Entry w0 (ChromiumLaunch pw headless) (Raised x) ∈ log s' →
    calls s' = [SyncPlaywrightEnter; ChromiumLaunch pw true;
                SyncPlaywrightExit pw] ∧
    exit_status r = 1%Z ∧
    ∃ x', r = Raised x' ∧
      (x' = x ∨ ∃ w1, Entry w1 (SyncPlaywrightExit pw) (Raised x') ∈ log s').
Proof.
  intros s' r w0 pw headless x. subst s' r.
  run_paths lib; intros Hin; in_log Hin; split_and!; try done.
  all: eexists; (split; [reflexivity|]).
  all: first [ left; reflexivity
             | right; eexists; apply list_elem_of_lookup; by exists 2 ].
Qed.

(** What a run with status zero certifies about the page: each click found
    exactly one element for its locator, so exactly one hotspot marker
    was there to be selected, and the assertion then found none. *)
Theorem passing_run_found_single_targets (matches : World → Locator → nat)
    (Hnone : click_times_out_without_match lib matches)
    (Hstrict : click_is_strict lib matches)
    (Hexpect : expect_raises_on_mismatch lib matches) args env w :
  let s' := (main lib (start args env w)).1 in
  let r := (main lib (start args env w)).2 in
  exit_status r = 0%Z →
  ∃ p e5 e6 e7 e8,
    log s' !! 5 = Some e5 ∧ log s' !! 6 = Some e6 ∧
    log s' !! 7 = Some e7 ∧ log s' !! 8 = Some e8 ∧
    e_call e5 = Click (add_hotspot_button p) ∧
    e_call e6 = Click (hotspot_element p) ∧
    e_call e7 = Click (delete_button p) ∧
    e_call e8 = ExpectToHaveCount (hotspot_element p) 0%Z ∧
    matches (e_pre e5) (add_hotspot_button p) = 1 ∧
    matches (e_pre e6) (hotspot_element p) = 1 ∧
    matches (e_pre e7) (delete_button p) = 1 ∧
    matches (e_pre e8) (hotspot_element p) = 0.
Proof.
  intros s' r Hz.
  assert (Hlog : ∃ p w5 w6 w7 w8,
    log s' !! 5 = Some (Entry w5 (Click (add_hotspot_button p)) (Returned VNone)) ∧
    log s' !! 6 = Some (Entry w6 (Click (hotspot_element p)) (Returned VNone)) ∧
    log s' !! 7 = Some (Entry w7 (Click (delete_button p)) (Returned VNone)) ∧
    log s' !! 8 = Some (Entry w8 (ExpectToHaveCount (hotspot_element p) 0%Z)
                          (Returned VNone))).
  { revert Hz. subst s' r. run_paths lib; intros Hz; try discriminate Hz.
    by eexists _, _, _, _, _. }
  destruct Hlog as (p & w5 & w6 & w7 & w8 & H5 & H6 & H7 & H8).
  assert (Hclick : ∀ i w0 l,
    log s' !! i = Some (Entry w0 (Click l) (Returned VNone)) → matches w0 l = 1).
  { intros i w0 l Hi.
    assert (Hin : Entry w0 (Click l) (Returned VNone) ∈ log s')
      by (apply list_elem_of_lookup; eauto).
    pose proof (main_answer lib args env w _ _ _ Hin) as Hans. simpl in Hans.
    destruct (matches w0 l) as [|[|n]] eqn:Hm; [|done|].
    - destruct (Hnone args env w0 l Hm) as [msg Hmsg]. simpl in Hmsg.
      rewrite Hmsg in Hans. discriminate Hans.
    - destruct (Hstrict args env w0 l) as [msg Hmsg]; [lia|]. simpl in Hmsg.
      rewrite Hmsg in Hans. discriminate Hans. }
  exists p. eexists _, _, _, _.
  split_and!; [exact H5 | exact H6 | exact H7 | exact H8 | done..
              | by eapply Hclick | by eapply Hclick | by eapply Hclick |].
  simpl.
  assert (Hin : Entry w8 (ExpectToHaveCount (hotspot_element p) 0%Z)
                  (Returned VNone) ∈ log s')
    by (apply list_elem_of_lookup; eauto).
  pose proof (main_answer lib args env w _ _ _ Hin) as Hans. simpl in Hans.
  destruct (decide (matches w8 (hotspot_element p) = 0)) as [|Hne]; [done|].
  destruct (Hexpect args env w8 (hotspot_element p) 0%Z) as [msg Hmsg]; [lia|].
  simpl in Hmsg. rewrite Hmsg in Hans. discriminate Hans.
Qed.

(** After a run with status zero the screenshot file exists, and no other
    file has been created, changed or removed. *)
Theorem passing_run_leaves_screenshot
    (files : World → gmap string (list Byte.byte))
    (Hfs : writes_only_named_files lib files) args env w :
  let s' := (main lib (start args env w)).1 in
  let r := (main lib (start args env w)).2 in
  exit_status r = 0%Z →
  is_Some (files (world s') !! screenshot_path) ∧
  ∀ path, path ≠ screenshot_path →
    files (world s') !! path = files w !! path.
Proof.
  intros s' r Hz.
  destruct (passing_run_files files Hfs args env w Hz) as [img Himg].
  fold s' in Himg. rewrite Himg. split.
  - rewrite lookup_insert_eq. by eexists.
  - intros path Hne. by rewrite lookup_insert_ne.
Qed.

(** Two runs in a row, the second starting from what the first left
    behind: when both end with status zero, the file system differs from
    the initial one at the screenshot path only, which holds the image of
    the second run. *)
Theorem second_run_replaces_screenshot
    (files : World → gmap string (list Byte.byte))
    (Hfs : writes_only_named_files lib files) args1 env1 args2 env2 w :
  let first := main lib (start args1 env1 w) in
  let second := main lib (start args2 env2 (world first.1)) in
  exit_status first.2 = 0%Z → exit_status second.2 = 0%Z →
  ∃ img1 img2,
    files (world first.1) = <[screenshot_path := img1]> (files w) ∧
    files (world second.1) = <[screenshot_path := img2]> (files w).
Proof.
  intros first second Hz1 Hz2.
  destruct (passing_run_files files Hfs args1 env1 w Hz1) as [img1 H1].
  destruct (passing_run_files files Hfs args2 env2 _ Hz2) as [img2 H2].
  exists img1, img2. split; [exact H1|].
  fold first in H1. fold first second in H2.
  by rewrite H2, H1, insert_insert_eq.
Qed.

End Coverage.

(** ** The further properties on the stub application *)

(** The [i]-th line of the log of a run, evaluated, with its position. *)
Ltac pose_line e l i :=
  let v := eval vm_compute in (l !! i) in
  lazymatch v with
  | Some ?e0 =>
      pose (e := e0);
      assert (l !! i = Some e) by (vm_compute; reflexivity)
  end.

(** The screenshot of the stub's successful run is taken on the page that
    [new_page] returned. *)
Lemma receivers_come_from_earlier_calls_witness :
  let s' := (main Stub.lib (start [] ∅ (Stub.app []))).1 in
  ∃ e, log s' !! 9 = Some e ∧
    call_receiver (e_call e) = Some (VPage (PageObj 0)) ∧
    ∃ j e0, j < 9 ∧ log s' !! j = Some e0 ∧
      e_outcome e0 = Returned (VPage (PageObj 0)).
Proof.
  intros s'. subst s'.
  pose_line e (log (main Stub.lib (start [] ∅ (Stub.app []))).1) 9.
  rename select (_ !! 9 = Some e) into Hi. exists e.
  assert (Hv : call_receiver (e_call e) = Some (VPage (PageObj 0)))
    by reflexivity.
  split; [exact Hi|]. split; [exact Hv|].
  pose proof (receivers_come_from_earlier_calls Stub.lib [] ∅ (Stub.app []))
    as Hthm.
  cbv zeta in Hthm. exact (Hthm 9 e _ Hi Hv).
Defined.

(** The stub whose browser cannot be launched. *)
Lemma failed_launch_ends_run_witness :
  let s' := (main Stub.lib (start [] ∅ (Stub.app [1]))).1 in
  let r := (main Stub.lib (start [] ∅ (Stub.app [1]))).2 in
  ∃ w0 x,
    Entry w0 (ChromiumLaunch (PlaywrightObj 0) true) (Raised x) ∈ log s' ∧
    calls s' = [SyncPlaywrightEnter; ChromiumLaunch (PlaywrightObj 0) true;
                SyncPlaywrightExit (PlaywrightObj 0)] ∧
    exit_status r = 1%Z ∧ r = Raised x.
Proof.
  intros s' r. subst s' r.
  pose_entry e (log (main Stub.lib (start [] ∅ (Stub.app [1]))).1) 1.
  rename select (e ∈ _) into He.
  exists (e_pre e), (Error "executable does not exist").
  pose proof (failed_launch_ends_run Stub.lib [] ∅ (Stub.app [1])) as Hthm.
  cbv zeta in Hthm.
  destruct (Hthm _ _ _ _ He) as (Hcalls & Hexit & _).
  split_and!; [exact He | exact Hcalls | exact Hexit | vm_compute; reflexivity].
Defined.

(** The stub as the scenario expects it: one button, one marker, one
    delete button, and no marker at the end. *)
Lemma passing_run_found_single_targets_witness :
  let s' := (main Stub.lib (start [] ∅ (Stub.app []))).1 in
  let r := (main Stub.lib (start [] ∅ (Stub.app []))).2 in
  click_times_out_without_match Stub.lib Stub.matches ∧
  click_is_strict Stub.lib Stub.matches ∧
  expect_raises_on_mismatch Stub.lib Stub.matches ∧
  exit_status r = 0%Z ∧
  ∃ p e6 e8,
    log s' !! 6 = Some e6 ∧ log s' !! 8 = Some e8 ∧
    Stub.matches (e_pre e6) (hotspot_element p) = 1 ∧
    Stub.matches (e_pre e8) (hotspot_element p) = 0.
Proof.
  intros s' r. subst s' r.
  assert (Hz : exit_status (main Stub.lib (start [] ∅ (Stub.app []))).2 = 0%Z)
    by (vm_compute; reflexivity).
  split_and!; [ exact StubFacts.click_times_out | exact StubFacts.click_strict
              | exact StubFacts.expect_raises | exact Hz |].
  pose proof (passing_run_found_single_targets Stub.lib Stub.matches
                StubFacts.click_times_out StubFacts.click_strict
                StubFacts.expect_raises [] ∅ (Stub.app [])) as Hthm.
  cbv zeta in Hthm.
  destruct (Hthm Hz)
    as (p & e5 & e6 & e7 & e8 & _ & H6 & _ & H8 & _ & _ & _ & _ & _ & M6 & _ & M8).
  exists p, e6, e8. split_and!; [exact H6 | exact H8 | exact M6 | exact M8].
Defined.

(** The stub with a screenshot left from an earlier run. *)
Lemma passing_run_leaves_screenshot_witness :
  let s' := (main Stub.lib (start [] ∅ Stub.stale_screenshot)).1 in
  let r := (main Stub.lib (start [] ∅ Stub.stale_screenshot)).2 in
  writes_only_named_files Stub.lib Stub.disk ∧
  exit_status r = 0%Z ∧
  is_Some (Stub.disk (world s') !! screenshot_path) ∧
  ∀ path, path ≠ screenshot_path →
    Stub.disk (world s') !! path = Stub.disk Stub.stale_screenshot !! path.
Proof.
  intros s' r. subst s' r.
  assert (Hz : exit_status (main Stub.lib (start [] ∅ Stub.stale_screenshot)).2
               = 0%Z) by (vm_compute; reflexivity).
  split_and!; [exact StubFacts.writes_named_files | exact Hz | |].
  all: pose proof (passing_run_leaves_screenshot Stub.lib Stub.disk
                     StubFacts.writes_named_files [] ∅ Stub.stale_screenshot)
         as Hthm;
       cbv zeta in Hthm; destruct (Hthm Hz) as [Hsome Hother].
  - exact Hsome.
  - exact Hother.
Defined.

(** The stub run twice in a row. *)
Lemma second_run_replaces_screenshot_witness :
  let first := main Stub.lib (start [] ∅ (Stub.app [])) in
  let second := main Stub.lib (start [] ∅ (world first.1)) in
  writes_only_named_files Stub.lib Stub.disk ∧
  exit_status first.2 = 0%Z ∧ exit_status second.2 = 0%Z ∧
  ∃ img1 img2,
    Stub.disk (world first.1) = <[screenshot_path := img1]> ∅ ∧
    Stub.disk (world second.1) = <[screenshot_path := img2]> ∅.
Proof.
  intros first second. subst first second.
  assert (Hz1 : exit_status (main Stub.lib (start [] ∅ (Stub.app []))).2 = 0%Z)
    by (vm_compute; reflexivity).
  assert (Hz2 : exit_status
                  (main Stub.lib
                     (start [] ∅
                        (world (main Stub.lib (start [] ∅ (Stub.app []))).1))).2
                = 0%Z) by (vm_compute; reflexivity).
  split_and!; [exact StubFacts.writes_named_files | exact Hz1 | exact Hz2 |].
  pose proof (second_run_replaces_screenshot Stub.lib Stub.disk
                StubFacts.writes_named_files [] ∅ [] ∅ (Stub.app [])) as Hthm.
  cbv zeta in Hthm. exact (Hthm Hz1 Hz2).
Defined.
